(** * Sliding-window rate limiter of [internal/handlers/middleware/rate_limit.go]

    A shallow embedding of [RateLimiter], [NewRateLimiter] and the handler
    returned by [RateLimitMiddleware], followed by the properties of the
    admission decision.

    The handler body runs between [rl.mu.Lock()] and the deferred
    [rl.mu.Unlock()], so one invocation is one transition of the limiter
    state; the clock reading [time.Now()] and the client address
    [c.ClientIP()] are the inputs of that transition.

    The later sections cover what surrounds the limiter: the reply helpers
    of [internal/handlers/response], the other handlers of the middleware
    package and the chain the user routes build from them, the pagination
    and truncation helpers of [pkg/utils], and the module registry of
    [internal/di]. *)

From Stdlib Require Import ZArith List Bool Lia.
From stdpp Require Import gmap strings list fin_maps.
Import ListNotations.

Local Open Scope Z_scope.

(** ** The fragment of Go's [time] package the handler uses *)

Module time.

(** A [time.Duration] is an [int64] count of nanoseconds. *)
Definition minDuration : Z := - 2 ^ 63.
Definition maxDuration : Z := 2 ^ 63 - 1.

Definition Nanosecond : Z := 1.
Definition Microsecond : Z := 1000 * Nanosecond.
Definition Millisecond : Z := 1000 * Microsecond.

(** [t.Sub(u)]: the difference of two clock readings (nanoseconds on the
    monotonic clock that [time.Now()] attaches), saturated to the range
    of a [Duration] as the library documents it. *)
Definition Sub (t u : Z) : Z :=
  let d := t - u in
  if maxDuration <? d then maxDuration
  else if d <? minDuration then minDuration
  else d.

End time.

(** ** The limiter state *)

(** [type RateLimiter struct { requests map[string][]time.Time; mu sync.Mutex }].
    The mutex carries no data; what it guarantees is that handler bodies do
    not overlap, which is how transitions are taken here. *)
Record RateLimiter : Type := mkRateLimiter {
  requests : gmap string (list Z)
}.

(** [NewRateLimiter]: the map starts empty. *)
Definition NewRateLimiter : RateLimiter :=
  {| requests := ∅ |}.

(** [rl.requests[ip]] read as a slice: a missing key reads as the empty
    slice. *)
Definition window (rl : RateLimiter) (ip : string) : list Z :=
  default [] (requests rl !! ip).

(** The pruning loop
    [for _, reqTime := range rl.requests[ip] { if now.Sub(reqTime) < duration
       { recentRequests = append(recentRequests, reqTime) } }]
    with the accumulator [recentRequests] threaded through. *)
Fixpoint pruneLoop (now duration : Z) (reqs recentRequests : list Z) : list Z :=
  match reqs with
  | [] => recentRequests
  | reqTime :: rest =>
      if time.Sub now reqTime <? duration
      then pruneLoop now duration rest (recentRequests ++ [reqTime])
      else pruneLoop now duration rest recentRequests
  end.

(** [var recentRequests []time.Time] followed by the loop. *)
Definition recent (now duration : Z) (reqs : list Z) : list Z :=
  pruneLoop now duration reqs [].

(** The handler returned by [RateLimitMiddleware(maxRequests, duration)],
    run for a request from address [ip] when the clock reads [now].
    The boolean is [true] when the chain proceeds ([c.Next()]) and [false]
    when the request is answered 429 and aborted. *)
Definition RateLimitMiddleware (maxRequests duration : Z)
    (ip : string) (now : Z) (rl : RateLimiter) : RateLimiter * bool :=
  (* Get or create request log for this IP *)
  let reqs :=
    match requests rl !! ip with
    | Some _ => requests rl
    | None => <[ip := []]> (requests rl)
    end in
  (* Remove old requests outside the time window *)
  let recentRequests := recent now duration (default [] (reqs !! ip)) in
  (* Check if limit exceeded *)
  if maxRequests <=? Z.of_nat (length recentRequests)
  then ({| requests := reqs |}, false)
  else
    (* Add current request *)
    ({| requests := <[ip := recentRequests ++ [now]]> reqs |}, true).

(** A request as the limiter sees it: the client address and the clock
    reading taken under the lock. *)
Definition call : Type := string * Z.

(** The handler serving a sequence of requests one after the other; the
    verdicts come back in the same order. *)
Fixpoint serve (maxRequests duration : Z) (rl : RateLimiter)
    (calls : list call) : RateLimiter * list bool :=
  match calls with
  | [] => (rl, [])
  | (ip, now) :: rest =>
      let '(rl1, ok) := RateLimitMiddleware maxRequests duration ip now rl in
      let '(rl2, oks) := serve maxRequests duration rl1 rest in
      (rl2, ok :: oks)
  end.

(** ** Vocabulary of the statements *)

(** Clock readings that never go back: each is at least [t0] and at least
    its predecessor. *)
Fixpoint chrono (t0 : Z) (ts : list Z) : Prop :=
  match ts with
  | [] => True
  | t :: rest => t0 <= t /\ chrono t rest
  end.

Definition nondecreasing (ts : list Z) : Prop :=
  match ts with
  | [] => True
  | t :: rest => chrono t rest
  end.

(** The verdicts of the calls made by [ip], in order. *)
Fixpoint verdicts (ip : string) (calls : list call) (oks : list bool)
    : list bool :=
  match calls, oks with
  | (c, _) :: cs, ok :: os =>
      if bool_decide (c = ip) then ok :: verdicts ip cs os
      else verdicts ip cs os
  | _, _ => []
  end.

(** The clock readings of the calls of [ip] that were admitted, in order. *)
Fixpoint admitted (ip : string) (calls : list call) (oks : list bool)
    : list Z :=
  match calls, oks with
  | (c, t) :: cs, ok :: os =>
      if bool_decide (c = ip) && ok then t :: admitted ip cs os
      else admitted ip cs os
  | _, _ => []
  end.

(** How many readings of [ts] fall in the half-open interval [(lo, hi]]. *)
Definition count_in (lo hi : Z) (ts : list Z) : Z :=
  Z.of_nat (length (List.filter (fun t => (lo <? t) && (t <=? hi)) ts)).

(** The calls of one client only. *)
Definition only (ip : string) (calls : list call) : list call :=
  List.filter (fun c => bool_decide (c.1 = ip)) calls.

(** ** What one client sees

    The handler touches one entry of the map.  [clientStep] is that entry's
    own transition and [clientRun] iterates it; [serve_project] below shows
    that this is what [serve] does to each client's window. *)

Definition clientStep (maxRequests duration now : Z) (w : list Z)
    : list Z * bool :=
  let recentRequests := recent now duration w in
  if maxRequests <=? Z.of_nat (length recentRequests)
  then (w, false)
  else (recentRequests ++ [now], true).

Fixpoint clientRun (maxRequests duration : Z) (w : list Z) (ts : list Z)
    : list Z * list bool :=
  match ts with
  | [] => (w, [])
  | now :: rest =>
      let '(w1, ok) := clientStep maxRequests duration now w in
      let '(w2, oks) := clientRun maxRequests duration w1 rest in
      (w2, ok :: oks)
  end.

(** The readings of [ts] whose verdict in [oks] is [true]. *)
Fixpoint kept (ts : list Z) (oks : list bool) : list Z :=
  match ts, oks with
  | t :: ts', ok :: oks' => if ok then t :: kept ts' oks' else kept ts' oks'
  | _, _ => []
  end.

(** ** The middleware package as gin drives it

    [internal/handlers/response/response.go], the handlers of
    [internal/handlers/middleware] and the chain that
    [internal/handlers/http/routes/user_routes.go] builds from them. *)

Module http.

(** The status codes of [net/http] the helpers below use. *)
Definition StatusBadRequest : Z := 400.
Definition StatusUnauthorized : Z := 401.
Definition StatusTooManyRequests : Z := 429.

End http.

Module response.

(** [type Response struct { Success bool; Data interface{}; Message string;
    Error string }]; a nil [Data] is [None], an unset string is empty. *)
Record Response {payload : Type} : Type := mkResponse {
  Success : bool;
  Data : option payload;
  Message : string;
  Error : string
}.
Arguments Response : clear implicits.

(** The helpers, as the status and the envelope they hand to [c.JSON]. *)
Definition ErrorBadRequest {payload : Type} (message : string)
    : Z * Response payload :=
  (http.StatusBadRequest,
   {| Success := false; Data := None; Message := ""; Error := message |}).

Definition ErrorUnauthorized {payload : Type} (message : string)
    : Z * Response payload :=
  (http.StatusUnauthorized,
   {| Success := false; Data := None; Message := ""; Error := message |}).

Definition ErrorTooManyRequests {payload : Type} (message : string)
    : Z * Response payload :=
  (http.StatusTooManyRequests,
   {| Success := false; Data := None; Message := ""; Error := message |}).

End response.

(** What the handlers read from the [*gin.Context]: [c.Request.Method],
    [c.GetHeader("Content-Type")], [c.GetHeader("Authorization")] (a missing
    header reads as the empty string) and [c.ClientIP()]. *)
Record Request : Type := mkRequest {
  Method : string;
  ContentType : string;
  Authorization : string;
  ClientIP : string
}.

(** What a handler does to the chain: it hands on with [c.Next()], or it
    writes a reply with [c.JSON] and stops the chain with [c.Abort()]. *)
Inductive Outcome {payload : Type} : Type :=
  | Next
  | Abort (status : Z) (body : response.Response payload).
Arguments Outcome : clear implicits.

Definition abortWith {payload : Type} (reply : Z * response.Response payload)
    : Outcome payload :=
  Abort reply.1 reply.2.

(** [LoggingMiddleware]: takes the time, calls [c.Next()] and writes one log
    line afterwards.  It never writes a reply and never aborts; the log line
    is not part of this development. *)
Definition LoggingMiddleware {payload : Type} (c : Request) : Outcome payload :=
  Next.

(** [ContentTypeMiddleware]. *)
Definition ContentTypeMiddleware {payload : Type} (c : Request)
    : Outcome payload :=
  let method := Method c in
  (* Only validate for methods that typically have a body *)
  if String.eqb method "POST" || String.eqb method "PUT"
     || String.eqb method "PATCH"
  then
    let contentType := ContentType c in
    if negb (String.eqb contentType "application/json")
    then abortWith (response.ErrorBadRequest "Content-Type must be application/json")
    else Next
  else Next.

(** [isValidToken]: [token != "" && len(token) > 10], [len] counting bytes. *)
Definition isValidToken (token : string) : bool :=
  negb (String.eqb token "") && (10 <? Z.of_nat (String.length token)).

(** [AuthMiddleware]. *)
Definition AuthMiddleware {payload : Type} (c : Request) : Outcome payload :=
  let token := Authorization c in
  (* Check if token exists *)
  if String.eqb token ""
  then abortWith (response.ErrorUnauthorized "Authorization header missing")
  else if negb (isValidToken token)
  then abortWith (response.ErrorUnauthorized "Invalid or expired token")
  else Next.

(** The handler of [RateLimitMiddleware] with its reply: the verdict
    [false] is the 429 envelope followed by [c.Abort()], the verdict [true]
    is [c.Next()]. *)
Definition RateLimitHandler {payload : Type} (maxRequests duration : Z)
    (c : Request) (now : Z) (rl : RateLimiter)
    : RateLimiter * Outcome payload :=
  let '(rl1, ok) := RateLimitMiddleware maxRequests duration (ClientIP c) now rl in
  (rl1,
   if ok then Next
   else abortWith
          (response.ErrorTooManyRequests "Rate limit exceeded. Too many requests.")).

(** gin runs the handlers of a route in the order they were installed; a
    handler that aborts keeps the later ones from running. *)
Fixpoint runChain {payload : Type}
    (handlers : list (Request -> Outcome payload)) (c : Request)
    : Outcome payload :=
  match handlers with
  | [] => Next
  | h :: rest =>
      match h c with
      | Next => runChain rest c
      | Abort status body => Abort status body
      end
  end.

(** [UserRouter.Register]: the group [/api/v1/users] uses the logging
    middleware; the write group made from it adds the authorization and
    the content-type middleware, in that order. *)
Definition userGroup {payload : Type} : list (Request -> Outcome payload) :=
  [LoggingMiddleware].

Definition writeGroup {payload : Type} : list (Request -> Outcome payload) :=
  userGroup ++ [AuthMiddleware; ContentTypeMiddleware].

(** ** [pkg/utils]: pagination and string truncation *)

Module utils.

(** Go's [int] on a 64-bit platform: arithmetic wraps around. *)
Definition minInt : Z := - 2 ^ 63.
Definition maxInt : Z := 2 ^ 63 - 1.

Definition wrapInt (z : Z) : Z := (z + 2 ^ 63) mod 2 ^ 64 - 2 ^ 63.

(** [type Pagination struct { Page int; PageSize int; Total int64;
    TotalPage int }]. *)
Record Pagination : Type := mkPagination {
  Page : Z;
  PageSize : Z;
  Total : Z;
  TotalPage : Z
}.

(** [NewPagination].  The page count
    [int(math.Ceil(float64(total) / float64(pageSize)))] is computed in
    floating point; it enters as the function [ceilDiv] of the total and of
    the page size after clamping. *)
Definition NewPagination (ceilDiv : Z -> Z -> Z) (page pageSize total : Z)
    : Pagination :=
  let page := if page <? 1 then 1 else page in
  let pageSize := if pageSize <? 1 then 10 else pageSize in
  let pageSize := if 100 <? pageSize then 100 (* Max page size *) else pageSize in
  let totalPage := ceilDiv total pageSize in
  {| Page := page; PageSize := pageSize; Total := total; TotalPage := totalPage |}.

Definition GetOffset (p : Pagination) : Z :=
  wrapInt (wrapInt (Page p - 1) * PageSize p).

Definition GetLimit (p : Pagination) : Z := PageSize p.

Definition IsValid (p : Pagination) : bool :=
  (1 <=? Page p) && (1 <=? PageSize p) && (PageSize p <=? 100).

Definition HasPreviousPage (p : Pagination) : bool := 1 <? Page p.

Definition HasNextPage (p : Pagination) : bool := Page p <? TotalPage p.

Definition GetPreviousPage (p : Pagination) : Z :=
  if negb (HasPreviousPage p) then Page p else wrapInt (Page p - 1).

Definition GetNextPage (p : Pagination) : Z :=
  if negb (HasNextPage p) then Page p else wrapInt (Page p + 1).


End utils.

(** ** [internal/di]: the module registry *)

Section Registry.

(** The [*dig.Container] the modules fill and the errors they report. *)
Variables Container Err : Type.

(** [type Module interface { Name() string; Register(container) error }];
    [Register] works on the container in place, here it returns it. *)
Record Module : Type := mkModule { Name : string; Register : Container -> Container * option Err }.

(** [type Registry struct { modules []Module }]. *)
Record Registry : Type := mkRegistry { modules : list Module }.

Definition NewRegistry : Registry := {| modules := [] |}.

(** [(r *Registry) Register]. *)
Definition Registry_Register (module : Module) (r : Registry) : Registry :=
  {| modules := modules r ++ [module] |}.

(** The loop of [Setup]: register each module, return the first error. *)
Fixpoint setupLoop (ms : list Module) (container : Container)
    : Container * option Err :=
  match ms with
  | [] => (container, None)
  | module :: rest =>
      match Register module container with
      | (container1, Some err) => (container1, Some err)
      | (container1, None) => setupLoop rest container1
      end
  end.

Definition Setup (r : Registry) (container : Container)
    : Container * option Err :=
  setupLoop (modules r) container.

Definition GetModules (r : Registry) : list Module := modules r.

(** [(c *Container) GetModule]: the first module of that name, [nil] when
    there is none. *)
Fixpoint getModuleLoop (name : string) (ms : list Module) : option Module :=
  match ms with
  | [] => None
  | m :: rest => if String.eqb (Name m) name then Some m else getModuleLoop name rest
  end.

Definition GetModule (name : string) (r : Registry) : option Module :=
  getModuleLoop name (GetModules r).

End Registry.

Arguments Name {Container Err} _.
Arguments Register {Container Err} _ _.
Arguments modules {Container Err} _.
Arguments Registry_Register {Container Err} _ _.
Arguments Setup {Container Err} _ _.
Arguments GetModule {Container Err} _ _.
Arguments GetModules {Container Err} _.
Arguments NewRegistry {Container Err}.
Arguments setupLoop {Container Err} _ _.
Arguments getModuleLoop {Container Err} _ _.

(** ** The pruning loop is a filter *)

Definition fresh (now duration : Z) (t : Z) : bool :=
  time.Sub now t <? duration.

Lemma pruneLoop_filter now duration reqs acc :
  pruneLoop now duration reqs acc = acc ++ List.filter (fresh now duration) reqs.
Proof.
  revert acc. induction reqs as [|t rest IH]; intros acc; simpl.
  - by rewrite app_nil_r.
  - unfold fresh at 1. destruct (time.Sub now t <? duration).
    + rewrite IH. by rewrite <- app_assoc.
    + apply IH.
Qed.

Lemma recent_filter now duration reqs :
  recent now duration reqs = List.filter (fresh now duration) reqs.
Proof. unfold recent. by rewrite pruneLoop_filter. Qed.

Lemma recent_nil now duration : recent now duration [] = [].
Proof. reflexivity. Qed.

Lemma recent_app now duration l1 l2 :
  recent now duration (l1 ++ l2) = recent now duration l1 ++ recent now duration l2.
Proof. rewrite !recent_filter. apply List.filter_app. Qed.

Lemma recent_length_le now duration l :
  (length (recent now duration l) <= length l)%nat.
Proof. rewrite recent_filter. apply List.filter_length_le. Qed.

(** Saturation never changes the outcome of the comparison against a
    window that is itself a [Duration] above the least one. *)
Lemma Sub_lt_exact now t duration :
  time.minDuration < duration <= time.maxDuration ->
  (time.Sub now t <? duration) = (now - t <? duration).
Proof.
  intros [Hlo Hhi]. unfold time.Sub.
  destruct (Z.ltb_spec time.maxDuration (now - t)) as [Hbig|Hbig].
  - destruct (Z.ltb_spec time.maxDuration duration); [lia|].
    destruct (Z.ltb_spec (now - t) duration); [lia|done].
  - destruct (Z.ltb_spec (now - t) time.minDuration) as [Hsmall|Hsmall].
    + destruct (Z.ltb_spec time.minDuration duration); [|lia].
      destruct (Z.ltb_spec (now - t) duration); [done|lia].
    + done.
Qed.

Lemma fresh_exact now t duration :
  time.minDuration < duration <= time.maxDuration ->
  fresh now duration t = (now - t <? duration).
Proof. apply Sub_lt_exact. Qed.

Lemma positive_window_ok duration :
  0 < duration <= time.maxDuration ->
  time.minDuration < duration <= time.maxDuration.
Proof. unfold time.minDuration. lia. Qed.

(** ** One transition *)

Section Handler.

Variables maxRequests duration : Z.

Local Abbreviation handler := (RateLimitMiddleware maxRequests duration).

(** The handler, with the get-or-create step folded into [window]. *)
Lemma handler_unfold ip now rl :
  handler ip now rl =
    let recentRequests := recent now duration (window rl ip) in
    if maxRequests <=? Z.of_nat (length recentRequests)
    then ({| requests :=
               match requests rl !! ip with
               | Some _ => requests rl
               | None => <[ip := []]> (requests rl)
               end |}, false)
    else ({| requests := <[ip := recentRequests ++ [now]]> (requests rl) |},
          true).
Proof.
  unfold RateLimitMiddleware, window.
  destruct (requests rl !! ip) as [l|] eqn:Hl; simpl.
  - rewrite Hl. reflexivity.
  - rewrite lookup_insert_eq. simpl. rewrite insert_insert_eq. reflexivity.
Qed.

Lemma handler_verdict ip now rl :
  (handler ip now rl).2 =
    negb (maxRequests <=? Z.of_nat (length (recent now duration (window rl ip)))).
Proof.
  rewrite handler_unfold. simpl.
  by destruct (maxRequests <=? _).
Qed.

(** Frame: the entry of any other key is what it was. *)
Lemma handler_other ip now rl c :
  c <> ip -> requests (handler ip now rl).1 !! c = requests rl !! c.
Proof.
  intros Hne. rewrite handler_unfold. simpl.
  destruct (maxRequests <=? _); simpl.
  - destruct (requests rl !! ip); [done|]. by rewrite lookup_insert_ne.
  - by rewrite lookup_insert_ne.
Qed.

Lemma handler_window_other ip now rl c :
  c <> ip -> window (handler ip now rl).1 c = window rl c.
Proof. intros Hne. unfold window. by rewrite handler_other. Qed.

(** The caller's own window after the call. *)
Lemma handler_window_self ip now rl :
  window (handler ip now rl).1 ip =
    if (handler ip now rl).2
    then recent now duration (window rl ip) ++ [now]
    else window rl ip.
Proof.
  rewrite handler_unfold. simpl.
  destruct (maxRequests <=? _); simpl.
  - unfold window. simpl.
    destruct (requests rl !! ip) eqn:Hl; [by rewrite Hl|].
    by rewrite lookup_insert_eq.
  - unfold window. simpl. by rewrite lookup_insert_eq.
Qed.

Lemma handler_rejected ip now rl :
  (handler ip now rl).2 = false <->
  maxRequests <= Z.of_nat (length (recent now duration (window rl ip))).
Proof.
  rewrite handler_verdict.
  destruct (Z.leb_spec maxRequests
              (Z.of_nat (length (recent now duration (window rl ip)))));
    simpl; split; intros; try done; lia.
Qed.

Lemma handler_admitted ip now rl :
  (handler ip now rl).2 = true <->
  Z.of_nat (length (recent now duration (window rl ip))) < maxRequests.
Proof.
  rewrite handler_verdict.
  destruct (Z.leb_spec maxRequests
              (Z.of_nat (length (recent now duration (window rl ip)))));
    simpl; split; intros; try done; lia.
Qed.

(** [serve], one call at a time. *)
Lemma serve_cons rl ip now rest :
  serve maxRequests duration rl ((ip, now) :: rest) =
    let st := handler ip now rl in
    let r := serve maxRequests duration st.1 rest in
    (r.1, st.2 :: r.2).
Proof.
  simpl. destruct (handler ip now rl) as [rl1 ok]. simpl.
  by destruct (serve maxRequests duration rl1 rest).
Qed.

Lemma serve_length rl calls :
  length (serve maxRequests duration rl calls).2 = length calls.
Proof.
  revert rl. induction calls as [|[ip now] rest IH]; intros rl; [done|].
  rewrite serve_cons. simpl. by rewrite IH.
Qed.

End Handler.

(** ** Projection of a run on one client *)

Section Projection.

Variables maxRequests duration : Z.

Local Abbreviation handler := (RateLimitMiddleware maxRequests duration).
Local Abbreviation step := (clientStep maxRequests duration).

Lemma handler_step ip now rl :
  window (handler ip now rl).1 ip = (step now (window rl ip)).1 /\
  (handler ip now rl).2 = (step now (window rl ip)).2.
Proof.
  rewrite handler_window_self, handler_verdict. unfold clientStep.
  by destruct (maxRequests <=? _).
Qed.

Lemma clientRun_cons w now rest :
  clientRun maxRequests duration w (now :: rest) =
    let st := step now w in
    let r := clientRun maxRequests duration st.1 rest in
    (r.1, st.2 :: r.2).
Proof.
  simpl. destruct (step now w) as [w1 ok]. simpl.
  by destruct (clientRun maxRequests duration w1 rest).
Qed.

Lemma clientRun_length w ts :
  length (clientRun maxRequests duration w ts).2 = length ts.
Proof.
  revert w. induction ts as [|now rest IH]; intros w; [done|].
  rewrite clientRun_cons. simpl. by rewrite IH.
Qed.

Lemma only_cons_eq ip now rest :
  only ip ((ip, now) :: rest) = (ip, now) :: only ip rest.
Proof. unfold only. simpl. by rewrite bool_decide_eq_true_2. Qed.

Lemma only_cons_ne ip c now rest :
  c <> ip -> only ip ((c, now) :: rest) = only ip rest.
Proof. intros Hne. unfold only. simpl. by rewrite bool_decide_eq_false_2. Qed.

(** What [serve] does to the window of [ip], and the verdicts it gives
    [ip], is [clientRun] on the calls of [ip] alone. *)
Lemma serve_project ip calls : forall rl,
  window (serve maxRequests duration rl calls).1 ip =
    (clientRun maxRequests duration (window rl ip) (map snd (only ip calls))).1 /\
  verdicts ip calls (serve maxRequests duration rl calls).2 =
    (clientRun maxRequests duration (window rl ip) (map snd (only ip calls))).2.
Proof.
  induction calls as [|[c now] rest IH]; intros rl; [done|].
  rewrite serve_cons. cbn [fst snd verdicts].
  destruct (decide (c = ip)) as [->|Hne].
  - rewrite only_cons_eq. cbn [map snd]. rewrite clientRun_cons.
    cbn [fst snd]. rewrite bool_decide_eq_true_2 by done.
    destruct (handler_step ip now rl) as [Hw Hv].
    destruct (IH (handler ip now rl).1) as [IHw IHv].
    rewrite Hw in IHw, IHv. rewrite IHw, IHv, Hv. done.
  - rewrite only_cons_ne by done. rewrite bool_decide_eq_false_2 by done.
    destruct (IH (handler c now rl).1) as [IHw IHv].
    rewrite handler_window_other in IHw, IHv by done. done.
Qed.

Lemma admitted_project ip calls : forall oks,
  length oks = length calls ->
  admitted ip calls oks = kept (map snd (only ip calls)) (verdicts ip calls oks).
Proof.
  induction calls as [|[c now] rest IH]; intros [|ok oks] Hlen; try done.
  simpl in Hlen. cbn [admitted verdicts].
  destruct (decide (c = ip)) as [->|Hne].
  - rewrite only_cons_eq. rewrite bool_decide_eq_true_2 by done.
    cbn [map snd kept andb]. rewrite IH by lia. done.
  - rewrite only_cons_ne by done. rewrite bool_decide_eq_false_2 by done.
    cbn [andb]. apply IH. lia.
Qed.

End Projection.

(** ** The window boundary *)

Lemma recent_In now duration reqs t :
  In t (recent now duration reqs) <-> In t reqs /\ fresh now duration t = true.
Proof. rewrite recent_filter. apply List.filter_In. Qed.

Lemma recent_exact now duration reqs :
  time.minDuration < duration <= time.maxDuration ->
  recent now duration reqs = List.filter (fun t => now - t <? duration) reqs.
Proof.
  intros Hd. rewrite recent_filter. apply List.filter_ext.
  intros t. by apply fresh_exact.
Qed.

(** C4. The window is half-open, [(now - duration, now]]: pruning keeps a
    stored timestamp [t] exactly when [now - t < duration]; a timestamp
    that is exactly [duration] old is dropped, and the count compared with
    the quota is the number of stored timestamps strictly younger than
    [duration]. *)
Theorem window_boundary_half_open
    (maxRequests duration now : Z) (ip : string) (rl : RateLimiter) (t : Z) :
  time.minDuration < duration <= time.maxDuration ->
  (In t (recent now duration (window rl ip)) <->
     In t (window rl ip) /\ now - t < duration) /\
  (now - t = duration -> ~ In t (recent now duration (window rl ip))) /\
  (RateLimitMiddleware maxRequests duration ip now rl).2 =
    negb (maxRequests <=?
            Z.of_nat (length (List.filter (fun u => now - u <? duration)
                                (window rl ip)))).
Proof.
  intros Hd.
  assert (Hiff : In t (recent now duration (window rl ip)) <->
                 In t (window rl ip) /\ now - t < duration).
  { rewrite recent_In, fresh_exact by done. by rewrite Z.ltb_lt. }
  split; [exact Hiff|]. split.
  - intros Heq Hin. apply Hiff in Hin. lia.
  - rewrite handler_verdict. by rewrite recent_exact.
Qed.

Lemma window_boundary_half_open_witness :
  ~ In 0 (recent 1000 1000
            (window {| requests := {[ "10.0.0.5"%string := [0; 1] ]} |} "10.0.0.5")) /\
  (RateLimitMiddleware 2 1000 "10.0.0.5" 1000
     {| requests := {[ "10.0.0.5"%string := [0; 1] ]} |}).2 = true.
Proof.
  destruct (window_boundary_half_open 2 1000 1000 "10.0.0.5"
              {| requests := {[ "10.0.0.5"%string := [0; 1] ]} |} 0)
    as (_ & Hout & Hv).
  - unfold time.minDuration, time.maxDuration. lia.
  - split; [apply Hout; lia | rewrite Hv; reflexivity].
Defined.

(** ** Rejected calls *)

(** C9. A rejected call leaves the timestamp list of every key already in
    the map as it was, the caller's own included (it is not pruned); the
    one change it can make is to enter the caller's key with an empty list
    when the key was absent. *)
Theorem rejection_leaves_lists_untouched
    (maxRequests duration : Z) (ip : string) (now : Z) (rl : RateLimiter) :
  (RateLimitMiddleware maxRequests duration ip now rl).2 = false ->
  (forall c l, requests rl !! c = Some l ->
     requests (RateLimitMiddleware maxRequests duration ip now rl).1 !! c = Some l) /\
  ((RateLimitMiddleware maxRequests duration ip now rl).1 = rl \/
   (requests rl !! ip = None /\
    (RateLimitMiddleware maxRequests duration ip now rl).1 =
      {| requests := <[ip := []]> (requests rl) |})).
Proof.
  rewrite handler_unfold. cbn zeta.
  destruct (maxRequests <=? _); [intros _|done]. cbn [fst snd requests].
  destruct (requests rl !! ip) as [l0|] eqn:Hip.
  - split; [done|]. left. by destruct rl.
  - split; [|by right].
    intros c l Hc. rewrite lookup_insert_ne; [done|]. congruence.
Qed.

Lemma rejection_leaves_lists_untouched_witness :
  requests
    (RateLimitMiddleware 1 50 "10.0.0.5" 120
       {| requests := {[ "10.0.0.5"%string := [0; 100] ]} |}).1 !! "10.0.0.5"%string
  = Some [0; 100].
Proof.
  apply (rejection_leaves_lists_untouched 1 50 "10.0.0.5" 120
           {| requests := {[ "10.0.0.5"%string := [0; 100] ]} |});
    reflexivity.
Defined.

(** C10. Under a quota [maxRequests <= 0] no call is admitted, whatever the
    state and whoever the client (a client never seen before included):
    the count of retained timestamps is at least [0]. *)
Theorem nonpositive_quota_rejects_all
    (maxRequests duration : Z) (rl : RateLimiter) (calls : list call) :
  maxRequests <= 0 ->
  (forall ip now, (RateLimitMiddleware maxRequests duration ip now rl).2 = false) /\
  (serve maxRequests duration rl calls).2 = repeat false (length calls).
Proof.
  intros Hq.
  assert (Hone : forall rl' ip now,
             (RateLimitMiddleware maxRequests duration ip now rl').2 = false).
  { intros rl' ip now. apply handler_rejected. lia. }
  split; [apply Hone|].
  revert rl. induction calls as [|[ip now] rest IH]; intros rl; [done|].
  rewrite serve_cons. cbn [fst snd length repeat]. by rewrite Hone, IH.
Qed.

Lemma nonpositive_quota_rejects_all_witness :
  (serve 0 1000 NewRateLimiter
     [("10.0.0.5"%string, 0); ("10.0.0.6"%string, 5000)]).2 = [false; false].
Proof.
  apply (nonpositive_quota_rejects_all 0 1000 NewRateLimiter
           [("10.0.0.5"%string, 0); ("10.0.0.6"%string, 5000)]).
  lia.
Defined.

Lemma filter_same_length {A} (f : A -> bool) (l : list A) :
  length (List.filter f l) = length l -> List.filter f l = l.
Proof.
  intros Hlen. apply List.forallb_filter_id. by apply List.filter_length_forallb.
Qed.

(** A window that holds no more entries than the count the pruning found
    had nothing stale in it. *)
Lemma recent_full now duration w (n : Z) :
  n <= Z.of_nat (length (recent now duration w)) ->
  Z.of_nat (length w) <= n ->
  recent now duration w = w.
Proof.
  intros Hge Hle. pose proof (recent_length_le now duration w) as Hlen.
  rewrite recent_filter in *. apply filter_same_length. lia.
Qed.

(** C2, as the code has it.  On a rejected call nothing is appended to the
    caller's stored window and nothing is removed from it: the pruned list
    is only counted.  The stored window is the filtered set when it held
    nothing stale, which is the case whenever it holds at most
    [maxRequests] entries. *)
Theorem rejected_call_keeps_stored_window
    (maxRequests duration : Z) (ip : string) (now : Z) (rl : RateLimiter) :
  (RateLimitMiddleware maxRequests duration ip now rl).2 = false ->
  window (RateLimitMiddleware maxRequests duration ip now rl).1 ip = window rl ip /\
  (Z.of_nat (length (window rl ip)) <= maxRequests ->
   window (RateLimitMiddleware maxRequests duration ip now rl).1 ip =
     recent now duration (window rl ip)).
Proof.
  intros Hrej. rewrite handler_window_self, Hrej. split; [done|].
  intros Hle. symmetry. apply recent_full with maxRequests; [|done].
  by apply handler_rejected.
Qed.

Lemma rejected_call_keeps_stored_window_witness :
  window
    (RateLimitMiddleware 1 50 "10.0.0.5" 120
       {| requests := {[ "10.0.0.5"%string := [0; 100] ]} |}).1 "10.0.0.5"
  = [0; 100].
Proof.
  destruct (rejected_call_keeps_stored_window 1 50 "10.0.0.5" 120
              {| requests := {[ "10.0.0.5"%string := [0; 100] ]} |})
    as [Hsame _]; [reflexivity | exact Hsame].
Defined.

(** C2, as the claim states it, fails.  One limiter serves two route groups
    with different limits (the "middleware factory" pattern of
    docs/MIDDLEWARE_PATTERNS.md), here quota 2 per 1000 and quota 1 per 50.
    After two admitted calls at 0 and 100 through the first, a call at 120
    through the second is rejected (100 is still counted) and the stored
    window is still [[0; 100]], although the filtered set is [[100]]. *)
Lemma rejected_call_not_pruned_counterexample :
  let rl := (serve 2 1000 NewRateLimiter
               [("10.0.0.5"%string, 0); ("10.0.0.5"%string, 100)]).1 in
  (RateLimitMiddleware 1 50 "10.0.0.5" 120 rl).2 = false /\
  recent 120 50 (window rl "10.0.0.5") = [100] /\
  window (RateLimitMiddleware 1 50 "10.0.0.5" 120 rl).1 "10.0.0.5" = [0; 100] /\
  window (RateLimitMiddleware 1 50 "10.0.0.5" 120 rl).1 "10.0.0.5"
    <> recent 120 50 (window rl "10.0.0.5").
Proof.
  cbv zeta. repeat split; try (vm_compute; reflexivity).
  vm_compute. discriminate.
Qed.

(** ** A client held at its quota *)

Lemma clientStep_rejected maxRequests duration now w :
  maxRequests <= Z.of_nat (length (recent now duration w)) ->
  clientStep maxRequests duration now w = (w, false).
Proof.
  intros Hge. unfold clientStep.
  destruct (Z.leb_spec maxRequests (Z.of_nat (length (recent now duration w))));
    [done|lia].
Qed.

Lemma clientRun_held maxRequests duration w ts :
  (forall now, In now ts ->
     maxRequests <= Z.of_nat (length (recent now duration w))) ->
  clientRun maxRequests duration w ts = (w, repeat false (length ts)).
Proof.
  induction ts as [|now rest IH]; intros Hall; [done|].
  rewrite clientRun_cons, clientStep_rejected by (apply Hall; by left).
  cbn [fst snd]. rewrite IH; [done|]. intros t Ht. apply Hall. by right.
Qed.

Lemma In_only ip now calls :
  In now (map snd (only ip calls)) -> In (ip, now) calls.
Proof.
  unfold only. rewrite in_map_iff. intros ([c t] & Heq & Hin).
  apply List.filter_In in Hin as [Hin Hc]. apply bool_decide_eq_true in Hc.
  simpl in *. by subst.
Qed.

(** C3. Rejected calls do not consume quota.  Take a client whose stored
    window shows at least [maxRequests] unexpired timestamps at the time of
    each of its further calls (none of them has aged out yet).  However
    many such calls it makes, and whatever other clients do in between,
    every one of them is rejected and its stored window stays as it was. *)
Theorem rejected_calls_do_not_consume_quota
    (maxRequests duration : Z) (ip : string) (rl : RateLimiter)
    (calls : list call) :
  (forall now, In (ip, now) calls ->
     maxRequests <= Z.of_nat (length (recent now duration (window rl ip)))) ->
  verdicts ip calls (serve maxRequests duration rl calls).2 =
    repeat false (length (only ip calls)) /\
  window (serve maxRequests duration rl calls).1 ip = window rl ip.
Proof.
  intros Hall.
  destruct (serve_project maxRequests duration ip calls rl) as [Hw Hv].
  rewrite Hw, Hv, clientRun_held.
  - cbn [fst snd]. by rewrite length_map.
  - intros now Hin. apply Hall. by apply In_only.
Qed.

Lemma rejected_calls_do_not_consume_quota_witness :
  verdicts "10.0.0.5"
    [("10.0.0.5"%string, 300); ("10.0.0.6"%string, 350);
     ("10.0.0.5"%string, 400); ("10.0.0.5"%string, 999)]
    (serve 3 1000 {| requests := {[ "10.0.0.5"%string := [0; 100; 200] ]} |}
       [("10.0.0.5"%string, 300); ("10.0.0.6"%string, 350);
        ("10.0.0.5"%string, 400); ("10.0.0.5"%string, 999)]).2
  = [false; false; false].
Proof.
  apply (rejected_calls_do_not_consume_quota 3 1000 "10.0.0.5"
           {| requests := {[ "10.0.0.5"%string := [0; 100; 200] ]} |}
           [("10.0.0.5"%string, 300); ("10.0.0.6"%string, 350);
            ("10.0.0.5"%string, 400); ("10.0.0.5"%string, 999)]).
  intros now [H|[H|[H|[H|[]]]]]; inversion H; subst; vm_compute; discriminate.
Defined.

(** ** A run of one client *)

Lemma serve_single_client maxRequests duration ip ts : forall rl,
  (serve maxRequests duration rl (map (pair ip) ts)).2 =
    (clientRun maxRequests duration (window rl ip) ts).2 /\
  window (serve maxRequests duration rl (map (pair ip) ts)).1 ip =
    (clientRun maxRequests duration (window rl ip) ts).1.
Proof.
  induction ts as [|now rest IH]; intros rl; [done|].
  cbn [map]. rewrite serve_cons, clientRun_cons. cbn [fst snd].
  destruct (handler_step maxRequests duration ip now rl) as [Hw Hv].
  destruct (IH (RateLimitMiddleware maxRequests duration ip now rl).1)
    as [IHv IHw].
  rewrite Hw in IHv, IHw. by rewrite IHv, IHw, Hv.
Qed.

(** C7. Quota 3 per 1000ms and a client with no entry in the map.  Calls
    at 0, 100 and 200ms are admitted, the call at 300ms is rejected, and
    the call at 1050ms is admitted: the timestamp of 0ms has aged out, two
    are retained and the new one joins them. *)
Theorem example_trace (ip : string) (rl : RateLimiter) :
  requests rl !! ip = None ->
  (serve 3 (1000 * time.Millisecond) rl
     [(ip, 0); (ip, 100 * time.Millisecond); (ip, 200 * time.Millisecond);
      (ip, 300 * time.Millisecond); (ip, 1050 * time.Millisecond)]).2
    = [true; true; true; false; true] /\
  window
    (serve 3 (1000 * time.Millisecond) rl
       [(ip, 0); (ip, 100 * time.Millisecond); (ip, 200 * time.Millisecond);
        (ip, 300 * time.Millisecond); (ip, 1050 * time.Millisecond)]).1 ip
    = [100 * time.Millisecond; 200 * time.Millisecond; 1050 * time.Millisecond].
Proof.
  intros Hnew.
  pose proof (serve_single_client 3 (1000 * time.Millisecond) ip
                [0; 100 * time.Millisecond; 200 * time.Millisecond;
                 300 * time.Millisecond; 1050 * time.Millisecond] rl)
    as [Hv Hw].
  cbn [map] in Hv, Hw. rewrite Hv, Hw.
  unfold window. rewrite Hnew. cbn [default].
  split; vm_compute; reflexivity.
Qed.

Lemma example_trace_witness :
  (serve 3 (1000 * time.Millisecond) NewRateLimiter
     [("10.0.0.5"%string, 0);
      ("10.0.0.5"%string, 100 * time.Millisecond);
      ("10.0.0.5"%string, 200 * time.Millisecond);
      ("10.0.0.5"%string, 300 * time.Millisecond);
      ("10.0.0.5"%string, 1050 * time.Millisecond)]).2
    = [true; true; true; false; true].
Proof.
  apply (example_trace "10.0.0.5" NewRateLimiter). reflexivity.
Defined.

(** ** Clients do not interact *)

Lemma handler_blind maxRequests duration a b now rl (l : list Z) :
  a <> b ->
  (RateLimitMiddleware maxRequests duration a now
     {| requests := <[b := l]> (requests rl) |}).2 =
    (RateLimitMiddleware maxRequests duration a now rl).2 /\
  requests (RateLimitMiddleware maxRequests duration a now
              {| requests := <[b := l]> (requests rl) |}).1 !! a =
    requests (RateLimitMiddleware maxRequests duration a now rl).1 !! a.
Proof.
  intros Hne.
  assert (Ha : <[b := l]> (requests rl) !! a = requests rl !! a)
    by (by rewrite lookup_insert_ne).
  unfold RateLimitMiddleware. cbn [requests].
  rewrite Ha. destruct (requests rl !! a) as [la|] eqn:Hla.
  - rewrite Ha, Hla. cbn [default].
    destruct (maxRequests <=? _); cbn [fst snd requests].
    + by rewrite Ha.
    + by rewrite !lookup_insert_eq.
  - rewrite !lookup_insert_eq. cbn [default].
    destruct (maxRequests <=? _); cbn [fst snd requests];
      by rewrite !lookup_insert_eq.
Qed.

(** C5. Client isolation.  A call for [a] leaves the entry of any other
    client [b] as it was, and neither its verdict nor the entry it writes
    for [a] depends on what is stored for [b] (overwriting the entry of
    [b] changes neither).  So the verdicts given to [b] are a function of
    the entry of [b] and the calls of [b] alone: two runs that start with
    the same entry for [b] and contain the same calls of [b] give [b] the
    same verdicts, whatever the other clients did. *)
Theorem client_isolation
    (maxRequests duration : Z) (a b : string) (now : Z)
    (rl rl' : RateLimiter) (calls calls' : list call) :
  a <> b ->
  requests rl' !! b = requests rl !! b ->
  only b calls' = only b calls ->
  requests (RateLimitMiddleware maxRequests duration a now rl).1 !! b =
    requests rl !! b /\
  (forall l,
     (RateLimitMiddleware maxRequests duration a now
        {| requests := <[b := l]> (requests rl) |}).2 =
       (RateLimitMiddleware maxRequests duration a now rl).2 /\
     requests (RateLimitMiddleware maxRequests duration a now
                 {| requests := <[b := l]> (requests rl) |}).1 !! a =
       requests (RateLimitMiddleware maxRequests duration a now rl).1 !! a) /\
  verdicts b calls' (serve maxRequests duration rl' calls').2 =
    verdicts b calls (serve maxRequests duration rl calls).2 /\
  window (serve maxRequests duration rl' calls').1 b =
    window (serve maxRequests duration rl calls).1 b.
Proof.
  intros Hne Hsame Honly. split; [|split].
  - apply handler_other. congruence.
  - intros l. by apply handler_blind.
  - destruct (serve_project maxRequests duration b calls rl) as [Hw Hv].
    destruct (serve_project maxRequests duration b calls' rl') as [Hw' Hv'].
    assert (Hwin : window rl' b = window rl b) by (unfold window; by rewrite Hsame).
    rewrite Hw, Hv, Hw', Hv', Honly, Hwin. done.
Qed.

Lemma client_isolation_witness :
  verdicts "10.0.0.6"
    [("10.0.0.5"%string, 0); ("10.0.0.5"%string, 1); ("10.0.0.6"%string, 2);
     ("10.0.0.5"%string, 3); ("10.0.0.6"%string, 4)]
    (serve 1 1000 NewRateLimiter
       [("10.0.0.5"%string, 0); ("10.0.0.5"%string, 1); ("10.0.0.6"%string, 2);
        ("10.0.0.5"%string, 3); ("10.0.0.6"%string, 4)]).2
  = verdicts "10.0.0.6"
      [("10.0.0.6"%string, 2); ("10.0.0.6"%string, 4)]
      (serve 1 1000 NewRateLimiter
         [("10.0.0.6"%string, 2); ("10.0.0.6"%string, 4)]).2.
Proof.
  apply (client_isolation 1 1000 "10.0.0.5" "10.0.0.6" 0
           NewRateLimiter NewRateLimiter
           [("10.0.0.6"%string, 2); ("10.0.0.6"%string, 4)]
           [("10.0.0.5"%string, 0); ("10.0.0.5"%string, 1); ("10.0.0.6"%string, 2);
            ("10.0.0.5"%string, 3); ("10.0.0.6"%string, 4)]);
    [discriminate | reflexivity | reflexivity].
Defined.

(** ** The window slides *)

Lemma filter_drops {A} (f : A -> bool) (l : list A) (x : A) :
  In x l -> f x = false ->
  (length (List.filter f l) < length l)%nat.
Proof.
  induction l as [|y l IH]; intros Hin Hx; [done|]. simpl.
  destruct Hin as [->|Hin].
  - rewrite Hx. pose proof (List.filter_length_le f l). lia.
  - specialize (IH Hin Hx). destruct (f y); simpl; lia.
Qed.

(** Once a call has been admitted under quota [maxRequests], the stored
    window holds at most [maxRequests] timestamps, and stays so. *)
Lemma clientRun_bounded maxRequests duration ts : forall w,
  Z.of_nat (length w) <= maxRequests \/
    In true (clientRun maxRequests duration w ts).2 ->
  Z.of_nat (length (clientRun maxRequests duration w ts).1) <= maxRequests.
Proof.
  induction ts as [|now rest IH]; intros w Hw.
  - destruct Hw as [Hw|[]]. done.
  - rewrite clientRun_cons in *. cbn [fst snd] in *. apply IH.
    unfold clientStep in *.
    destruct (Z.leb_spec maxRequests
                (Z.of_nat (length (recent now duration w)))) as [Hfull|Hroom];
      cbn [fst snd] in *.
    + destruct Hw as [Hw|[Hw|Hw]]; [by left|done|by right].
    + left. rewrite length_app. simpl. lia.
Qed.

(** C6. The window slides.  A client gets [maxRequests] admissions in a
    row and then a rejection (other clients may call in between).  Any
    later call made once [duration] has elapsed since one of its retained
    timestamps, the earliest in particular, is admitted. *)
Theorem window_slides
    (maxRequests duration : Z) (ip : string) (rl : RateLimiter)
    (calls : list call) (t0 now : Z) :
  0 < maxRequests ->
  0 < duration <= time.maxDuration ->
  verdicts ip calls (serve maxRequests duration rl calls).2 =
    repeat true (Z.to_nat maxRequests) ++ [false] ->
  In t0 (window (serve maxRequests duration rl calls).1 ip) ->
  duration <= now - t0 ->
  (RateLimitMiddleware maxRequests duration ip now
     (serve maxRequests duration rl calls).1).2 = true.
Proof.
  intros Hq Hd Hv Hin Hold.
  apply handler_admitted.
  destruct (serve_project maxRequests duration ip calls rl) as [Hw Hv'].
  assert (Hlen : Z.of_nat (length (window (serve maxRequests duration rl calls).1 ip))
                 <= maxRequests).
  { rewrite Hw. apply clientRun_bounded. right. rewrite <- Hv', Hv.
    apply in_or_app. left.
    destruct (Z.to_nat maxRequests) as [|n] eqn:Hn; [lia|]. by left. }
  assert (Hstale : fresh now duration t0 = false).
  { rewrite fresh_exact by (by apply positive_window_ok).
    apply Z.ltb_ge. lia. }
  pose proof (filter_drops (fresh now duration) _ t0 Hin Hstale) as Hdrop.
  rewrite recent_filter. lia.
Qed.

Lemma window_slides_witness :
  (RateLimitMiddleware 3 1000 "10.0.0.5" 1000
     (serve 3 1000 NewRateLimiter
        [("10.0.0.5"%string, 0); ("10.0.0.5"%string, 100);
         ("10.0.0.6"%string, 150); ("10.0.0.5"%string, 200);
         ("10.0.0.5"%string, 300)]).1).2 = true.
Proof.
  apply (window_slides 3 1000 "10.0.0.5" NewRateLimiter
           [("10.0.0.5"%string, 0); ("10.0.0.5"%string, 100);
            ("10.0.0.6"%string, 150); ("10.0.0.5"%string, 200);
            ("10.0.0.5"%string, 300)] 0 1000).
  - lia.
  - unfold time.maxDuration. lia.
  - reflexivity.
  - vm_compute. by left.
  - lia.
Defined.

(** ** The quota holds over every window *)

Lemma chrono_weaken t0 t1 ts : t0 <= t1 -> chrono t1 ts -> chrono t0 ts.
Proof. destruct ts as [|t rest]; simpl; [done|]. intros ? [? ?]. split; [lia|done]. Qed.

Lemma chrono_only ip calls : forall t0,
  chrono t0 (map snd calls) -> chrono t0 (map snd (only ip calls)).
Proof.
  induction calls as [|[c t] rest IH]; intros t0 Hc; [done|].
  cbn [map snd chrono] in Hc. destruct Hc as [Hle Hrest].
  destruct (decide (c = ip)) as [->|Hne].
  - rewrite only_cons_eq. cbn [map snd chrono]. split; [done|by apply IH].
  - rewrite only_cons_ne by done. apply IH. by apply chrono_weaken with t.
Qed.

Lemma nondecreasing_only ip calls :
  nondecreasing (map snd calls) -> nondecreasing (map snd (only ip calls)).
Proof.
  induction calls as [|[c t] rest IH]; [done|].
  cbn [map snd nondecreasing]. intros Hc.
  destruct (decide (c = ip)) as [->|Hne].
  - rewrite only_cons_eq. cbn [map snd nondecreasing]. by apply chrono_only.
  - rewrite only_cons_ne by done. apply IH.
    destruct rest as [|[c' t'] rest']; [done|].
    cbn [map snd chrono nondecreasing] in *. tauto.
Qed.

Lemma filter_length_mono {A} (f g : A -> bool) (l : list A) :
  (forall x, f x = true -> g x = true) ->
  (length (List.filter f l) <= length (List.filter g l))%nat.
Proof.
  intros Himp. induction l as [|x l IH]; [done|]. simpl.
  destruct (f x) eqn:Hf.
  - rewrite (Himp x Hf). simpl. lia.
  - destruct (g x); simpl; lia.
Qed.

Lemma filter_filter_absorb {A} (f g : A -> bool) (l : list A) :
  (forall x, f x = true -> g x = true) ->
  List.filter f (List.filter g l) = List.filter f l.
Proof.
  intros Himp. induction l as [|x l IH]; [done|]. simpl.
  destruct (g x) eqn:Hg; simpl.
  - by rewrite IH.
  - destruct (f x) eqn:Hf; [|done]. rewrite (Himp x Hf) in Hg. done.
Qed.

Lemma count_in_app lo hi l1 l2 :
  count_in lo hi (l1 ++ l2) = count_in lo hi l1 + count_in lo hi l2.
Proof. unfold count_in. rewrite List.filter_app, length_app. lia. Qed.

Section Quota.

Variables maxRequests duration : Z.
Hypothesis duration_ok : 0 < duration <= time.maxDuration.

Local Abbreviation young now := (fun t : Z => now - t <? duration).

Lemma recent_young now w : recent now duration w = List.filter (young now) w.
Proof. apply recent_exact. by apply positive_window_ok. Qed.

(** The invariant carried along a run of one client.  [log] holds the
    admitted readings so far and [w] the stored window: from any later
    reading on, the window shows exactly the young part of the log, and the
    log already respects the quota over every window. *)
Lemma clientRun_quota ts : forall w log tnow,
  chrono tnow ts ->
  (forall now, tnow <= now ->
     List.filter (young now) log = recent now duration w) ->
  (forall T, count_in (T - duration) T log <= maxRequests) ->
  forall T,
    count_in (T - duration) T
      (log ++ kept ts (clientRun maxRequests duration w ts).2) <= maxRequests.
Proof.
  induction ts as [|now rest IH]; intros w log tnow Hchrono Hview Hquota T.
  - cbn [clientRun snd kept]. rewrite app_nil_r. apply Hquota.
  - cbn [chrono] in Hchrono. destruct Hchrono as [Hnow Hrest].
    rewrite clientRun_cons. cbn [fst snd kept]. unfold clientStep.
    destruct (Z.leb_spec maxRequests
                (Z.of_nat (length (recent now duration w)))) as [Hfull|Hroom];
      cbn [fst snd].
    + apply IH with now; [done| |done].
      intros now' Hle. apply Hview. lia.
    + replace (log ++ now :: kept rest
                 (clientRun maxRequests duration
                    (recent now duration w ++ [now]) rest).2)
        with ((log ++ [now]) ++ kept rest
                 (clientRun maxRequests duration
                    (recent now duration w ++ [now]) rest).2)
        by (by rewrite <- app_assoc).
      apply IH with now; [done| |].
      * intros now' Hle.
        rewrite List.filter_app, recent_app, Hview by lia.
        rewrite !recent_young.
        rewrite filter_filter_absorb; [done|].
        intros t Ht. apply Z.ltb_lt in Ht. apply Z.ltb_lt. lia.
      * intros T'. rewrite count_in_app.
        unfold count_in at 2. cbn [List.filter].
        destruct ((T' - duration <? now) && (now <=? T')) eqn:Hnew;
          cbn [length]; [|specialize (Hquota T'); lia].
        apply andb_true_iff in Hnew as [Hlo Hhi].
        apply Z.ltb_lt in Hlo. apply Z.leb_le in Hhi.
        assert (Hcnt : count_in (T' - duration) T' log <=
                       Z.of_nat (length (List.filter (young now) log))).
        { unfold count_in. apply inj_le. apply filter_length_mono.
          intros t Ht. apply andb_true_iff in Ht as [Ht _].
          apply Z.ltb_lt in Ht. apply Z.ltb_lt. lia. }
        rewrite Hview in Hcnt by lia. lia.
Qed.

End Quota.

(** C1. The core invariant.  Under a quota of [maxRequests > 0] per
    [duration > 0], serve any sequence of calls from a new limiter, the
    clock readings taken under the lock never going back.  For every
    client and every instant [T], the admitted calls of that client whose
    reading lies in the trailing window [(T - duration, T]] number at most
    [maxRequests]. *)
Theorem quota_never_exceeded
    (maxRequests duration : Z) (ip : string) (calls : list call) (T : Z) :
  0 < maxRequests ->
  0 < duration <= time.maxDuration ->
  nondecreasing (map snd calls) ->
  count_in (T - duration) T
    (admitted ip calls (serve maxRequests duration NewRateLimiter calls).2)
  <= maxRequests.
Proof.
  intros Hq Hd Hmono.
  rewrite admitted_project by apply serve_length.
  destruct (serve_project maxRequests duration ip calls NewRateLimiter)
    as [_ Hv].
  rewrite Hv. apply (nondecreasing_only ip) in Hmono.
  change (window NewRateLimiter ip) with (@nil Z).
  destruct (map snd (only ip calls)) as [|t ts] eqn:Hts.
  - unfold count_in. simpl. lia.
  - change (kept (t :: ts) (clientRun maxRequests duration [] (t :: ts)).2)
      with ([] ++ kept (t :: ts) (clientRun maxRequests duration [] (t :: ts)).2).
    apply clientRun_quota with t; [done| | |].
    + cbn [chrono nondecreasing] in *. split; [lia|done].
    + intros now _. done.
    + intros T'. unfold count_in. simpl. lia.
Qed.

Lemma quota_never_exceeded_witness :
  count_in 50 1050
    (admitted "10.0.0.5"
       [("10.0.0.5"%string, 0); ("10.0.0.5"%string, 100);
        ("10.0.0.6"%string, 150); ("10.0.0.5"%string, 200);
        ("10.0.0.5"%string, 300); ("10.0.0.5"%string, 1050)]
       (serve 3 1000 NewRateLimiter
          [("10.0.0.5"%string, 0); ("10.0.0.5"%string, 100);
           ("10.0.0.6"%string, 150); ("10.0.0.5"%string, 200);
           ("10.0.0.5"%string, 300); ("10.0.0.5"%string, 1050)]).2)
  <= 3.
Proof.
  apply (quota_never_exceeded 3 1000 "10.0.0.5"
           [("10.0.0.5"%string, 0); ("10.0.0.5"%string, 100);
            ("10.0.0.6"%string, 150); ("10.0.0.5"%string, 200);
            ("10.0.0.5"%string, 300); ("10.0.0.5"%string, 1050)] 1050).
  - lia.
  - unfold time.maxDuration. lia.
  - simpl. lia.
Defined.

(** ** Further consequences *)

(** A limiter that has only ever been driven with one quota stores at most
    [maxRequests] timestamps per client, so at a rejection nothing stored
    is stale: the unpruned window and the filtered one coincide there. *)
Lemma single_quota_window_bounded maxRequests duration calls ip :
  0 <= maxRequests ->
  Z.of_nat (length (window (serve maxRequests duration NewRateLimiter calls).1 ip))
    <= maxRequests.
Proof.
  intros Hq.
  destruct (serve_project maxRequests duration ip calls NewRateLimiter) as [Hw _].
  rewrite Hw. apply clientRun_bounded. left.
  change (window NewRateLimiter ip) with (@nil Z). simpl. lia.
Qed.

Lemma single_quota_rejection_nothing_stale maxRequests duration calls ip now :
  0 <= maxRequests ->
  (RateLimitMiddleware maxRequests duration ip now
     (serve maxRequests duration NewRateLimiter calls).1).2 = false ->
  recent now duration (window (serve maxRequests duration NewRateLimiter calls).1 ip)
    = window (serve maxRequests duration NewRateLimiter calls).1 ip.
Proof.
  intros Hq Hrej. apply recent_full with maxRequests.
  - by apply handler_rejected.
  - by apply single_quota_window_bounded.
Qed.

(** A burst of calls of one client, taken in any order, whose readings all
    lie within one window of each other and of what is stored: exactly as
    many are admitted as the quota has room for, the first ones. *)
Lemma clientRun_burst maxRequests duration ts : forall w,
  0 < duration <= time.maxDuration ->
  (forall t now, In t w -> In now ts -> now - t < duration) ->
  (forall a b, In a ts -> In b ts -> b - a < duration) ->
  (clientRun maxRequests duration w ts).2 =
    repeat true (Nat.min (Z.to_nat (maxRequests - Z.of_nat (length w))) (length ts))
    ++ repeat false (length ts - Z.to_nat (maxRequests - Z.of_nat (length w))).
Proof.
  intros w Hd. revert w.
  induction ts as [|now rest IH]; intros w Hw Hts.
  - simpl. by rewrite Nat.min_0_r.
  - rewrite clientRun_cons. unfold clientStep.
    assert (Hall : recent now duration w = w).
    { rewrite recent_filter. apply List.forallb_filter_id.
      apply List.forallb_forall. intros t Ht.
      rewrite fresh_exact by (by apply positive_window_ok).
      apply Z.ltb_lt. apply Hw; [done|by left]. }
    rewrite Hall.
    destruct (Z.leb_spec maxRequests (Z.of_nat (length w))) as [Hfull|Hroom];
      cbn [fst snd].
    + rewrite IH.
      * replace (Z.to_nat (maxRequests - Z.of_nat (length w))) with 0%nat by lia.
        simpl. by rewrite Nat.sub_0_r.
      * intros t now' Ht Hnow'. apply Hw; [done|by right].
      * intros a b Ha Hb. apply Hts; by right.
    + rewrite IH.
      * rewrite length_app. cbn [length].
        replace (Z.to_nat (maxRequests - Z.of_nat (length w)))
          with (S (Z.to_nat (maxRequests - Z.of_nat (length w + 1)))) by lia.
        reflexivity.
      * intros t now' Ht Hnow'. apply in_app_or in Ht as [Ht|[<-|[]]].
        -- apply Hw; [done|by right].
        -- apply Hts; [by left|by right].
      * intros a b Ha Hb. apply Hts; by right.
Qed.

Lemma burst_admits_exactly_quota maxRequests duration ip ts rl :
  0 < duration <= time.maxDuration ->
  window rl ip = [] ->
  (forall a b, In a ts -> In b ts -> b - a < duration) ->
  (serve maxRequests duration rl (map (pair ip) ts)).2 =
    repeat true (Nat.min (Z.to_nat maxRequests) (length ts))
    ++ repeat false (length ts - Z.to_nat maxRequests).
Proof.
  intros Hd Hnew Hts.
  destruct (serve_single_client maxRequests duration ip ts rl) as [Hv _].
  rewrite Hv, Hnew, clientRun_burst; [|done| |done].
  - simpl. by rewrite Z.sub_0_r.
  - intros t now [].
Qed.

(** ** The map of clients *)

Lemma handler_dom maxRequests duration ip now rl :
  dom (requests (RateLimitMiddleware maxRequests duration ip now rl).1) =
    {[ ip ]} ∪ dom (requests rl).
Proof.
  rewrite handler_unfold. cbn zeta.
  destruct (maxRequests <=? _); cbn [fst requests].
  - destruct (requests rl !! ip) as [l|] eqn:Hip.
    + assert (Hin : ip ∈ dom (requests rl)) by (apply elem_of_dom; eauto).
      apply set_eq. intros x. rewrite elem_of_union, elem_of_singleton.
      split; [by right | by intros [->|?]].
    + by rewrite dom_insert_L.
  - by rewrite dom_insert_L.
Qed.

(** X1. The handler never deletes a key.  After any run the keys of the map
    are the keys it had before together with the address of every caller,
    admitted or not: the map grows with the number of distinct clients seen
    and nothing in the package shrinks it. *)
Theorem keys_only_grow
    (maxRequests duration : Z) (rl : RateLimiter) (calls : list call) :
  dom (requests (serve maxRequests duration rl calls).1) =
    dom (requests rl) ∪ list_to_set (map fst calls).
Proof.
  revert rl. induction calls as [|[ip now] rest IH]; intros rl.
  - cbn. by rewrite (right_id_L ∅ (∪)).
  - rewrite serve_cons. cbn [fst snd map list_to_set].
    rewrite IH, handler_dom.
    by rewrite (comm_L (∪) {[ ip ]}), (assoc_L (∪)).
Qed.

(** ** What the stored window is *)

Lemma chrono_nondecreasing t0 ts : chrono t0 ts -> nondecreasing ts.
Proof. destruct ts as [|t rest]; [done|]. by intros [_ ?]. Qed.

Lemma chrono_filter (f : Z -> bool) ts : forall t0,
  chrono t0 ts -> chrono t0 (List.filter f ts).
Proof.
  induction ts as [|t rest IH]; intros t0 Hc; [done|].
  destruct Hc as [Hle Hrest]. cbn [List.filter]. destruct (f t).
  - split; [done|by apply IH].
  - apply IH. by apply chrono_weaken with t.
Qed.

Lemma nondecreasing_filter (f : Z -> bool) ts :
  nondecreasing ts -> nondecreasing (List.filter f ts).
Proof.
  induction ts as [|t rest IH]; [done|]. cbn [nondecreasing List.filter].
  intros Hc. destruct (f t).
  - by apply chrono_filter.
  - apply IH. by apply chrono_nondecreasing with t.
Qed.

Lemma chrono_snoc ts : forall t0 x,
  chrono t0 ts -> t0 <= x -> (forall t, In t ts -> t <= x) ->
  chrono t0 (ts ++ [x]).
Proof.
  induction ts as [|t rest IH]; intros t0 x Hc Hx Hall.
  - by split.
  - destruct Hc as [Hle Hrest]. cbn [app chrono]. split; [done|].
    apply IH; [done|apply Hall; by left|]. intros u Hu. apply Hall. by right.
Qed.

Lemma nondecreasing_snoc ts x :
  nondecreasing ts -> (forall t, In t ts -> t <= x) ->
  nondecreasing (ts ++ [x]).
Proof.
  destruct ts as [|t rest]; [done|]. cbn [nondecreasing app]. intros Hc Hall.
  apply chrono_snoc; [done|apply Hall; by left|].
  intros u Hu. apply Hall. by right.
Qed.

Lemma kept_In ts : forall oks t, In t (kept ts oks) -> In t ts.
Proof.
  induction ts as [|u rest IH]; intros [|ok oks] t Hin; try done.
  cbn [kept] in Hin. destruct ok.
  - destruct Hin as [->|Hin]; [by left|right; by apply IH with oks].
  - right. by apply IH with oks.
Qed.

(** Sortedness and provenance of one client's stored window along a run. *)
Lemma clientRun_shape maxRequests duration ts : forall w log tnow,
  chrono tnow ts ->
  nondecreasing w ->
  (forall t, In t w -> t <= tnow) ->
  (forall t, In t w -> In t log) ->
  nondecreasing (clientRun maxRequests duration w ts).1 /\
  (forall t, In t (clientRun maxRequests duration w ts).1 ->
     In t (log ++ kept ts (clientRun maxRequests duration w ts).2)).
Proof.
  induction ts as [|now rest IH]; intros w log tnow Hchrono Hsorted Hpast Hlog.
  - cbn [clientRun fst snd kept]. rewrite app_nil_r. done.
  - destruct Hchrono as [Hnow Hrest].
    rewrite clientRun_cons. cbn [fst snd kept]. unfold clientStep.
    destruct (maxRequests <=? _); cbn [fst snd].
    + apply IH with now; [done|done| |done].
      intros t Ht. specialize (Hpast t Ht). lia.
    + replace (log ++ now :: kept rest
                 (clientRun maxRequests duration
                    (recent now duration w ++ [now]) rest).2)
        with ((log ++ [now]) ++ kept rest
                 (clientRun maxRequests duration
                    (recent now duration w ++ [now]) rest).2)
        by (by rewrite <- app_assoc).
      assert (Hsub : forall t, In t (recent now duration w) -> In t w).
      { intros t Ht. by apply recent_In in Ht as [? _]. }
      apply IH with now; [done| | |].
      * apply nondecreasing_snoc.
        -- rewrite recent_filter. by apply nondecreasing_filter.
        -- intros t Ht. specialize (Hpast t (Hsub t Ht)). lia.
      * intros t Ht. apply in_app_or in Ht as [Ht|[<-|[]]]; [|lia].
        specialize (Hpast t (Hsub t Ht)). lia.
      * intros t Ht. apply in_or_app.
        apply in_app_or in Ht as [Ht|Ht]; [left|by right].
        by apply Hlog, Hsub.
Qed.

(** X3. The stored windows of a limiter that started empty, under a clock
    that never goes back: each client's window is in non-decreasing order,
    holds only readings of calls of that client that were admitted, and,
    for a quota [maxRequests >= 0], holds at most [maxRequests] of them. *)
Theorem stored_window_shape
    (maxRequests duration : Z) (ip : string) (calls : list call) :
  0 <= maxRequests ->
  nondecreasing (map snd calls) ->
  nondecreasing (window (serve maxRequests duration NewRateLimiter calls).1 ip) /\
  (forall t,
     In t (window (serve maxRequests duration NewRateLimiter calls).1 ip) ->
     In t (admitted ip calls (serve maxRequests duration NewRateLimiter calls).2)) /\
  Z.of_nat (length (window (serve maxRequests duration NewRateLimiter calls).1 ip))
    <= maxRequests.
Proof.
  intros Hq Hmono.
  split; [|split]; [| |by apply single_quota_window_bounded].
  - destruct (serve_project maxRequests duration ip calls NewRateLimiter)
      as [Hw _].
    rewrite Hw. change (window NewRateLimiter ip) with (@nil Z).
    apply (nondecreasing_only ip) in Hmono.
    destruct (map snd (only ip calls)) as [|t ts] eqn:Hts; [done|].
    apply (clientRun_shape maxRequests duration (t :: ts) [] [] t);
      [cbn [chrono nondecreasing] in *; split; [lia|done] | done..].
  - rewrite admitted_project by apply serve_length.
    destruct (serve_project maxRequests duration ip calls NewRateLimiter)
      as [Hw Hv].
    rewrite Hw, Hv. change (window NewRateLimiter ip) with (@nil Z).
    apply (nondecreasing_only ip) in Hmono.
    destruct (map snd (only ip calls)) as [|t ts] eqn:Hts; [done|].
    apply (clientRun_shape maxRequests duration (t :: ts) [] [] t);
      [cbn [chrono nondecreasing] in *; split; [lia|done] | done..].
Qed.

Lemma stored_window_shape_witness :
  nondecreasing
    (window (serve 2 1000 NewRateLimiter
               [("10.0.0.5"%string, 0); ("10.0.0.6"%string, 5);
                ("10.0.0.5"%string, 10); ("10.0.0.5"%string, 20);
                ("10.0.0.5"%string, 1005)]).1 "10.0.0.5").
Proof.
  apply (stored_window_shape 2 1000 "10.0.0.5"
           [("10.0.0.5"%string, 0); ("10.0.0.6"%string, 5);
            ("10.0.0.5"%string, 10); ("10.0.0.5"%string, 20);
            ("10.0.0.5"%string, 1005)]).
  - lia.
  - simpl. lia.
Defined.

(** ** The count is exact *)

Section View.

Variables maxRequests duration : Z.
Hypothesis duration_ok : 0 < duration <= time.maxDuration.

Local Abbreviation young now := (fun t : Z => now - t <? duration).

(** From any reading on that is not before the calls served so far, what
    pruning leaves of the stored window is the young part of the log of
    admitted calls. *)
Lemma clientRun_view ts : forall w log tnow,
  chrono tnow ts ->
  (forall now, tnow <= now ->
     List.filter (young now) log = recent now duration w) ->
  forall now,
    (forall t, In t (tnow :: ts) -> t <= now) ->
    List.filter (young now)
      (log ++ kept ts (clientRun maxRequests duration w ts).2) =
    recent now duration (clientRun maxRequests duration w ts).1.
Proof.
  induction ts as [|now0 rest IH]; intros w log tnow Hchrono Hview now Hlate.
  - cbn [clientRun fst snd kept]. rewrite app_nil_r. apply Hview.
    apply Hlate. by left.
  - destruct Hchrono as [Hnow0 Hrest].
    rewrite clientRun_cons. cbn [fst snd kept]. unfold clientStep.
    destruct (maxRequests <=? _); cbn [fst snd].
    + apply IH with now0; [done| |].
      * intros now' Hle. apply Hview. lia.
      * intros t Ht. apply Hlate. by right.
    + replace (log ++ now0 :: kept rest
                 (clientRun maxRequests duration
                    (recent now0 duration w ++ [now0]) rest).2)
        with ((log ++ [now0]) ++ kept rest
                 (clientRun maxRequests duration
                    (recent now0 duration w ++ [now0]) rest).2)
        by (by rewrite <- app_assoc).
      apply IH with now0; [done| |].
      * intros now' Hle.
        rewrite List.filter_app, recent_app, Hview by lia.
        rewrite !(recent_young duration duration_ok).
        rewrite filter_filter_absorb; [done|].
        intros t Ht. apply Z.ltb_lt in Ht. apply Z.ltb_lt. lia.
      * intros t Ht. apply Hlate. by right.
Qed.

End View.

Lemma only_In ip now calls :
  In now (map snd (only ip calls)) -> In now (map snd calls).
Proof.
  intros Hin. apply In_only in Hin. apply in_map_iff. by exists (ip, now).
Qed.

(** X2. No false rejection.  Serve any calls from a new limiter under a
    quota with [duration > 0], the clock never going back, and let a
    request arrive at a reading [now] not before them.  It is answered 429
    ("Rate limit exceeded. Too many requests.") and the chain is aborted
    exactly when its client already has [maxRequests] admitted calls with
    readings in [(now - duration, now]]; otherwise it is handed on. *)
Theorem exact_admission_rule
    (payload : Type) (maxRequests duration : Z) (calls : list call)
    (c : Request) (now : Z) :
  0 < duration <= time.maxDuration ->
  nondecreasing (map snd calls) ->
  (forall t, In t (map snd calls) -> t <= now) ->
  (@RateLimitHandler payload maxRequests duration c now
     (serve maxRequests duration NewRateLimiter calls).1).2 =
    if maxRequests <=?
         count_in (now - duration) now
           (admitted (ClientIP c) calls
              (serve maxRequests duration NewRateLimiter calls).2)
    then Abort 429
           {| response.Success := false; response.Data := None;
              response.Message := "";
              response.Error := "Rate limit exceeded. Too many requests." |}
    else Next.
Proof.
  intros Hd Hmono Hlate. set (ip := ClientIP c).
  assert (Hcount :
    count_in (now - duration) now
      (admitted ip calls (serve maxRequests duration NewRateLimiter calls).2) =
    Z.of_nat (length (recent now duration
      (window (serve maxRequests duration NewRateLimiter calls).1 ip)))).
  { rewrite admitted_project by apply serve_length.
    destruct (serve_project maxRequests duration ip calls NewRateLimiter)
      as [Hw Hv].
    rewrite Hw, Hv. change (window NewRateLimiter ip) with (@nil Z).
    apply (nondecreasing_only ip) in Hmono.
    assert (Hlate' : forall t, In t (map snd (only ip calls)) -> t <= now).
    { intros t Ht. apply Hlate. by apply only_In with ip. }
    destruct (map snd (only ip calls)) as [|t0 ts] eqn:Hts; [done|].
    rewrite <- (clientRun_view maxRequests duration Hd (t0 :: ts) [] [] t0).
    - cbn [app]. unfold count_in. f_equal. f_equal.
      apply List.filter_ext_in. intros t Ht. apply kept_In in Ht.
      specialize (Hlate' t Ht).
      destruct (Z.ltb_spec (now - duration) t), (Z.leb_spec t now),
        (Z.ltb_spec (now - t) duration); simpl; try done; lia.
    - cbn [chrono nondecreasing] in *. split; [lia|done].
    - done.
    - intros t [<-|Ht]; apply Hlate'; [by left|done]. }
  unfold RateLimitHandler.
  pose proof (handler_verdict maxRequests duration ip now
                (serve maxRequests duration NewRateLimiter calls).1) as Hv.
  fold ip. destruct (RateLimitMiddleware maxRequests duration ip now _)
    as [rl1 ok]. cbn [fst snd] in *. subst ok. rewrite <- Hcount.
  by destruct (maxRequests <=? _).
Qed.

Lemma exact_admission_rule_witness :
  (@RateLimitHandler unit 2 1000
     {| Method := "GET"; ContentType := ""; Authorization := "";
        ClientIP := "10.0.0.5" |} 1000
     (serve 2 1000 NewRateLimiter
        [("10.0.0.5"%string, 0); ("10.0.0.5"%string, 10);
         ("10.0.0.5"%string, 20)]).1).2 = Next.
Proof.
  apply (exact_admission_rule unit 2 1000
           [("10.0.0.5"%string, 0); ("10.0.0.5"%string, 10);
            ("10.0.0.5"%string, 20)]
           {| Method := "GET"; ContentType := ""; Authorization := "";
              ClientIP := "10.0.0.5" |} 1000).
  - unfold time.maxDuration. lia.
  - simpl. lia.
  - simpl. intros t [<-|[<-|[<-|[]]]]; lia.
Defined.

(** ** Edge quotas and bursts *)

Lemma Sub_nonneg t u : u <= t -> 0 <= time.Sub t u.
Proof.
  intros Hle. unfold time.Sub, time.maxDuration, time.minDuration.
  destruct (Z.ltb_spec (2 ^ 63 - 1) (t - u)); [lia|].
  destruct (Z.ltb_spec (t - u) (- 2 ^ 63)); lia.
Qed.

Lemma recent_none_young now duration w :
  duration <= 0 -> (forall t, In t w -> t <= now) ->
  recent now duration w = [].
Proof.
  intros Hd Hpast. rewrite recent_filter.
  induction w as [|t rest IH]; [done|]. cbn [List.filter].
  assert (Hstale : fresh now duration t = false).
  { unfold fresh. apply Z.ltb_ge.
    pose proof (Sub_nonneg now t (Hpast t (or_introl eq_refl))). lia. }
  rewrite Hstale. apply IH. intros u Hu. apply Hpast. by right.
Qed.

Lemma serve_nonpositive_window maxRequests duration calls : forall rl tnow,
  0 < maxRequests -> duration <= 0 ->
  chrono tnow (map snd calls) ->
  (forall ip t, In t (window rl ip) -> t <= tnow) ->
  (serve maxRequests duration rl calls).2 = repeat true (length calls).
Proof.
  induction calls as [|[ip now] rest IH]; intros rl tnow Hq Hd Hchrono Hpast;
    [done|].
  cbn [map snd chrono] in Hchrono.
  destruct Hchrono as [Hnow Hrest]. rewrite serve_cons.
  cbn [fst snd length repeat].
  assert (Hnone : recent now duration (window rl ip) = []).
  { apply recent_none_young; [done|].
    intros t Ht. specialize (Hpast ip t Ht). lia. }
  assert (Hok : (RateLimitMiddleware maxRequests duration ip now rl).2 = true).
  { apply handler_admitted. rewrite Hnone. simpl. lia. }
  rewrite Hok. f_equal. apply IH with now; [done|done|done|].
  intros c t Ht. destruct (decide (c = ip)) as [->|Hne].
  - rewrite handler_window_self, Hok, Hnone in Ht.
    destruct Ht as [<-|[]]. lia.
  - rewrite handler_window_other in Ht by done.
    specialize (Hpast c t Ht). lia.
Qed.

(** X4. A window [duration <= 0] switches the limiter off.  With a quota
    [maxRequests > 0], a limiter that started empty and a clock that never
    goes back, no stored timestamp is ever younger than such a window, so
    every call of every client is admitted. *)
Theorem nonpositive_window_admits_all
    (maxRequests duration : Z) (calls : list call) :
  0 < maxRequests ->
  duration <= 0 ->
  nondecreasing (map snd calls) ->
  (serve maxRequests duration NewRateLimiter calls).2 =
    repeat true (length calls).
Proof.
  intros Hq Hd Hmono. destruct calls as [|[ip now] rest]; [done|].
  apply serve_nonpositive_window with now; [done|done| |].
  - cbn [map snd chrono nondecreasing] in *. split; [lia|done].
  - intros c t Ht. change (window NewRateLimiter c) with (@nil Z) in Ht.
    destruct Ht.
Qed.

Lemma nonpositive_window_admits_all_witness :
  (serve 1 0 NewRateLimiter
     [("10.0.0.5"%string, 7); ("10.0.0.5"%string, 7);
      ("10.0.0.5"%string, 8)]).2 = [true; true; true].
Proof.
  apply (nonpositive_window_admits_all 1 0
           [("10.0.0.5"%string, 7); ("10.0.0.5"%string, 7);
            ("10.0.0.5"%string, 8)]).
  - lia.
  - lia.
  - simpl. lia.
Defined.

Lemma filter_id_repeat_true n m :
  length (List.filter id (repeat true n ++ repeat false m)) = n.
Proof.
  rewrite List.filter_app, length_app.
  assert (Ht : forall k, List.filter id (repeat true k) = repeat true k).
  { induction k as [|k IHk]; [done|]. simpl. by rewrite IHk. }
  assert (Hf : forall k, List.filter id (repeat false k) = []).
  { induction k as [|k IHk]; [done|]. simpl. by rewrite IHk. }
  rewrite Ht, Hf, repeat_length. simpl. lia.
Qed.

(** X5. A burst does not depend on the order of arrival.  Let a client
    with nothing stored make calls whose readings all lie less than
    [duration] apart.  In whatever order the handler gets to serve them,
    the verdicts are the same list: the first [maxRequests] served are
    admitted and all later ones rejected, so exactly
    [min maxRequests (number of calls)] are admitted. *)
Theorem burst_any_order
    (maxRequests duration : Z) (ip : string) (rl : RateLimiter)
    (ts ts' : list Z) :
  0 < duration <= time.maxDuration ->
  window rl ip = [] ->
  (forall a b, In a ts -> In b ts -> b - a < duration) ->
  Permutation ts ts' ->
  (serve maxRequests duration rl (map (pair ip) ts')).2 =
    (serve maxRequests duration rl (map (pair ip) ts)).2 /\
  length (List.filter id (serve maxRequests duration rl (map (pair ip) ts')).2) =
    Nat.min (Z.to_nat maxRequests) (length ts).
Proof.
  intros Hd Hnew Hclose Hperm.
  assert (Hclose' : forall a b, In a ts' -> In b ts' -> b - a < duration).
  { intros a b Ha Hb.
    apply Hclose; eapply Permutation_in; try eassumption;
      by apply Permutation_sym. }
  rewrite (burst_admits_exactly_quota maxRequests duration ip ts' rl)
    by done.
  rewrite (burst_admits_exactly_quota maxRequests duration ip ts rl)
    by done.
  rewrite <- (Permutation_length Hperm). split; [done|].
  apply filter_id_repeat_true.
Qed.

Lemma burst_any_order_witness :
  length (List.filter id
            (serve 2 1000 NewRateLimiter
               (map (pair "10.0.0.5"%string) [30; 10; 20; 40])).2) = 2%nat.
Proof.
  apply (burst_any_order 2 1000 "10.0.0.5" NewRateLimiter
           [10; 20; 30; 40] [30; 10; 20; 40]).
  - unfold time.maxDuration. lia.
  - reflexivity.
  - intros a b [<-|[<-|[<-|[<-|[]]]]] [<-|[<-|[<-|[<-|[]]]]]; lia.
  - apply perm_trans with (10 :: 30 :: 20 :: 40 :: nil).
    + apply perm_skip, perm_swap.
    + apply perm_swap.
Defined.

(** X6. In one state and at one reading, a laxer quota admits whatever a
    stricter one admits: a call admitted under [maxRequests] per
    [duration] is admitted under any [maxRequests' >= maxRequests] per any
    [duration' <= duration]. *)
Theorem verdict_monotone_in_quota
    (maxRequests duration maxRequests' duration' : Z)
    (ip : string) (now : Z) (rl : RateLimiter) :
  maxRequests <= maxRequests' ->
  duration' <= duration ->
  (RateLimitMiddleware maxRequests duration ip now rl).2 = true ->
  (RateLimitMiddleware maxRequests' duration' ip now rl).2 = true.
Proof.
  intros Hq Hd Hok. apply handler_admitted in Hok. apply handler_admitted.
  rewrite recent_filter in *.
  pose proof (filter_length_mono (fresh now duration') (fresh now duration)
                (window rl ip)) as Hmono.
  assert (Himp : forall t, fresh now duration' t = true ->
                           fresh now duration t = true).
  { unfold fresh. intros t Ht. apply Z.ltb_lt in Ht. apply Z.ltb_lt. lia. }
  specialize (Hmono Himp). lia.
Qed.

Lemma verdict_monotone_in_quota_witness :
  (RateLimitMiddleware 3 50 "10.0.0.5" 120
     {| requests := {[ "10.0.0.5"%string := [0; 100] ]} |}).2 = true.
Proof.
  apply (verdict_monotone_in_quota 2 60 3 50 "10.0.0.5" 120
           {| requests := {[ "10.0.0.5"%string := [0; 100] ]} |});
    [lia | lia | reflexivity].
Defined.

(** ** The guards of the user routes *)

Lemma isValidToken_length token :
  isValidToken token = (10 <? Z.of_nat (String.length token)).
Proof.
  unfold isValidToken. destruct (String.eqb_spec token "") as [->|Hne]; done.
Qed.

Lemma AuthMiddleware_Next (payload : Type) (c : Request) :
  @AuthMiddleware payload c = Next <->
  10 < Z.of_nat (String.length (Authorization c)).
Proof.
  unfold AuthMiddleware. rewrite isValidToken_length.
  destruct (String.eqb_spec (Authorization c) "") as [Hempty|Hne].
  - rewrite Hempty. simpl. split; [done|lia].
  - destruct (Z.ltb_spec 10 (Z.of_nat (String.length (Authorization c))));
      simpl; split; try done; lia.
Qed.

Lemma method_has_body (m : string) :
  String.eqb m "POST" || String.eqb m "PUT" || String.eqb m "PATCH" = true <->
  m = "POST"%string \/ m = "PUT"%string \/ m = "PATCH"%string.
Proof. rewrite !orb_true_iff, !String.eqb_eq. tauto. Qed.

Lemma ContentTypeMiddleware_Next (payload : Type) (c : Request) :
  @ContentTypeMiddleware payload c = Next <->
  (Method c = "POST"%string \/ Method c = "PUT"%string \/
   Method c = "PATCH"%string -> ContentType c = "application/json"%string).
Proof.
  unfold ContentTypeMiddleware.
  destruct (String.eqb (Method c) "POST" || String.eqb (Method c) "PUT"
            || String.eqb (Method c) "PATCH") eqn:Hm.
  - apply method_has_body in Hm.
    destruct (String.eqb_spec (ContentType c) "application/json")
      as [Hjson|Hjson]; cbn [negb].
    + split; [by intros _ _|done].
    + split; [done|]. intros Himp. by destruct Hjson; apply Himp.
  - split; [|done]. intros _ Hbody. apply method_has_body in Hbody.
    congruence.
Qed.


(** X8. How the write routes turn a request away.  The reply always has
    [success = false] and no data.  It is either 401, when the
    [Authorization] header has at most 10 bytes, whatever the method and
    the content type (authorization is checked first), or 400, which only
    an authorized POST, PUT or PATCH whose [Content-Type] is not
    [application/json] gets. *)
Theorem write_group_rejections
    (payload : Type) (c : Request) (status : Z)
    (body : response.Response payload) :
  runChain writeGroup c = Abort status body ->
  response.Success body = false /\ response.Data body = None /\
  ((status = 401 /\ Z.of_nat (String.length (Authorization c)) <= 10 /\
    response.Error body =
      (if String.eqb (Authorization c) ""
       then "Authorization header missing"
       else "Invalid or expired token")%string) \/
   (status = 400 /\ 10 < Z.of_nat (String.length (Authorization c)) /\
    (Method c = "POST"%string \/ Method c = "PUT"%string \/
     Method c = "PATCH"%string) /\
    ContentType c <> "application/json"%string /\
    response.Error body = "Content-Type must be application/json"%string)).
Proof.
  unfold writeGroup, userGroup. cbn [app runChain LoggingMiddleware].
  destruct (AuthMiddleware c) as [|s b] eqn:Hauth.
  - apply AuthMiddleware_Next in Hauth.
    destruct (ContentTypeMiddleware c) as [|s b] eqn:Hct; [done|].
    intros [= -> ->].
    assert (Hnot : ~ (Method c = "POST"%string \/ Method c = "PUT"%string \/
                      Method c = "PATCH"%string ->
                      ContentType c = "application/json"%string)).
    { intros Himp. apply (ContentTypeMiddleware_Next payload) in Himp.
      congruence. }
    unfold ContentTypeMiddleware in Hct.
    destruct (String.eqb (Method c) "POST" || String.eqb (Method c) "PUT"
              || String.eqb (Method c) "PATCH") eqn:Hm; [|done].
    destruct (String.eqb_spec (ContentType c) "application/json")
      as [Hjson|Hjson]; [done|].
    cbn in Hct. injection Hct as <- <-. cbn.
    split; [done|]. split; [done|]. right.
    repeat split; try done.
    by apply method_has_body.
  - intros [= -> ->]. unfold AuthMiddleware in Hauth.
    rewrite isValidToken_length in Hauth.
    destruct (String.eqb_spec (Authorization c) "") as [Hempty|Hne].
    + cbn in Hauth. injection Hauth as <- <-. cbn.
      split; [done|]. split; [done|]. left. rewrite Hempty.
      split; [done|]. split; [simpl; lia|done].
    + destruct (Z.ltb_spec 10 (Z.of_nat (String.length (Authorization c))));
        [done|].
      cbn in Hauth. injection Hauth as <- <-. cbn.
      split; [done|]. split; [done|]. left. done.
Qed.

Lemma write_group_rejections_witness :
  runChain writeGroup
    {| Method := "DELETE"; ContentType := "text/plain";
       Authorization := "Bearer abc"; ClientIP := "10.0.0.5" |}
  = Abort 401
      {| response.Success := false; response.Data := @None unit;
         response.Message := "";
         response.Error := "Invalid or expired token" |} /\
  Z.of_nat (String.length "Bearer abc") <= 10.
Proof.
  split; [reflexivity|].
  destruct (write_group_rejections unit
              {| Method := "DELETE"; ContentType := "text/plain";
                 Authorization := "Bearer abc"; ClientIP := "10.0.0.5" |}
              401
              {| response.Success := false; response.Data := None;
                 response.Message := "";
                 response.Error := "Invalid or expired token" |}
              eq_refl)
    as (_ & _ & [(_ & Hlen & _)|(Hstatus & _)]);
    [exact Hlen | discriminate Hstatus].
Defined.

(** ** Pagination *)

Lemma wrapInt_small z :
  utils.minInt <= z <= utils.maxInt -> utils.wrapInt z = z.
Proof.
  unfold utils.wrapInt, utils.minInt, utils.maxInt. intros Hz.
  rewrite Z.mod_small; lia.
Qed.

(** X9. [NewPagination] never returns an invalid pagination.  Whatever the
    arguments, the page is at least 1 (a page below 1 becomes 1), the page
    size lies in 1..100 (a size below 1 becomes the default 10, a size
    above 100 becomes 100), the total is kept as given, and [IsValid]
    accepts the result. *)
Theorem NewPagination_always_valid
    (ceilDiv : Z -> Z -> Z) (page pageSize total : Z) :
  utils.IsValid (utils.NewPagination ceilDiv page pageSize total) = true /\
  utils.Page (utils.NewPagination ceilDiv page pageSize total) = Z.max 1 page /\
  utils.PageSize (utils.NewPagination ceilDiv page pageSize total) =
    (if pageSize <? 1 then 10 else Z.min pageSize 100) /\
  utils.Total (utils.NewPagination ceilDiv page pageSize total) = total.
Proof.
  unfold utils.IsValid, utils.NewPagination.
  cbv zeta. cbn [utils.Page utils.PageSize utils.Total].
  assert (Hpage : (if page <? 1 then 1 else page) = Z.max 1 page)
    by (destruct (Z.ltb_spec page 1); lia).
  assert (Hsize :
    (if 100 <? (if pageSize <? 1 then 10 else pageSize) then 100
     else if pageSize <? 1 then 10 else pageSize) =
    (if pageSize <? 1 then 10 else Z.min pageSize 100)).
  { destruct (Z.ltb_spec pageSize 1); [reflexivity|].
    destruct (Z.ltb_spec 100 pageSize); lia. }
  rewrite Hpage, Hsize. split; [|done].
  rewrite !andb_true_iff, !Z.leb_le.
  destruct (Z.ltb_spec pageSize 1); lia.
Qed.

(** X10. Pages tile the result set.  For a valid pagination whose next
    page still fits an [int] offset, the offset is [(Page - 1) * PageSize],
    it is not negative, and the offset of the next page is this offset
    plus the limit: consecutive pages neither overlap nor leave a gap. *)
Theorem pagination_offsets_tile (p : utils.Pagination) :
  utils.IsValid p = true ->
  (utils.Page p + 1) * utils.PageSize p <= utils.maxInt ->
  utils.GetOffset p = (utils.Page p - 1) * utils.PageSize p /\
  0 <= utils.GetOffset p /\
  utils.GetOffset
    {| utils.Page := utils.Page p + 1; utils.PageSize := utils.PageSize p;
       utils.Total := utils.Total p; utils.TotalPage := utils.TotalPage p |} =
    utils.GetOffset p + utils.GetLimit p.
Proof.
  unfold utils.IsValid. rewrite !andb_true_iff, !Z.leb_le.
  intros [[Hpage Hsize] Hmax] Hfit.
  unfold utils.GetOffset, utils.GetLimit. cbn [utils.Page utils.PageSize].
  assert (Hmin : utils.minInt <= 0) by (unfold utils.minInt; lia).
  assert (Hp : utils.Page p + 1 <= utils.maxInt) by nia.
  replace (utils.Page p + 1 - 1) with (utils.Page p) by lia.
  rewrite (wrapInt_small (utils.Page p - 1)) by lia.
  rewrite (wrapInt_small (utils.Page p)) by lia.
  rewrite (wrapInt_small ((utils.Page p - 1) * utils.PageSize p)) by nia.
  rewrite (wrapInt_small (utils.Page p * utils.PageSize p)) by nia.
  repeat split; nia.
Qed.

Lemma pagination_offsets_tile_witness :
  utils.GetOffset
    {| utils.Page := 3; utils.PageSize := 10; utils.Total := 95;
       utils.TotalPage := 10 |} = 20.
Proof.
  apply (pagination_offsets_tile
           {| utils.Page := 3; utils.PageSize := 10; utils.Total := 95;
              utils.TotalPage := 10 |}).
  - reflexivity.
  - unfold utils.maxInt. simpl. lia.
Defined.

(** X11. Moving between pages.  For a pagination on page 1 or later, with
    page and page count in the range of [int]: the previous page is never
    below 1 nor above the current one, the next page is never below the
    current one nor above the larger of the current page and the page
    count, going to the next page and back returns to the current page,
    and so does going back and forth when the current page is not beyond
    the page count. *)
Theorem page_navigation (p : utils.Pagination) :
  1 <= utils.Page p <= utils.maxInt ->
  utils.TotalPage p <= utils.maxInt ->
  (1 <= utils.GetPreviousPage p <= utils.Page p) /\
  (utils.Page p <= utils.GetNextPage p <= Z.max (utils.Page p) (utils.TotalPage p)) /\
  (utils.HasNextPage p = true ->
   utils.GetPreviousPage
     {| utils.Page := utils.GetNextPage p; utils.PageSize := utils.PageSize p;
        utils.Total := utils.Total p; utils.TotalPage := utils.TotalPage p |}
   = utils.Page p) /\
  (utils.HasPreviousPage p = true -> utils.Page p <= utils.TotalPage p ->
   utils.GetNextPage
     {| utils.Page := utils.GetPreviousPage p; utils.PageSize := utils.PageSize p;
        utils.Total := utils.Total p; utils.TotalPage := utils.TotalPage p |}
   = utils.Page p).
Proof.
  intros [Hlo Hhi] Htotal.
  assert (Hmin : utils.minInt <= 0) by (unfold utils.minInt; lia).
  unfold utils.GetPreviousPage, utils.GetNextPage, utils.HasPreviousPage,
    utils.HasNextPage. cbn [utils.Page utils.TotalPage].
  split; [|split; [|split]].
  - destruct (Z.ltb_spec 1 (utils.Page p)); cbn [negb];
      rewrite ?wrapInt_small by lia; lia.
  - destruct (Z.ltb_spec (utils.Page p) (utils.TotalPage p)); cbn [negb];
      rewrite ?wrapInt_small by lia; lia.
  - intros Hnext.
    destruct (Z.ltb_spec (utils.Page p) (utils.TotalPage p)); [|done].
    cbn [negb]. rewrite (wrapInt_small (utils.Page p + 1)) by lia.
    destruct (Z.ltb_spec 1 (utils.Page p + 1)); [|lia]. cbn [negb].
    rewrite wrapInt_small by lia. lia.
  - intros Hprev Hle.
    destruct (Z.ltb_spec 1 (utils.Page p)); [|done].
    cbn [negb]. rewrite (wrapInt_small (utils.Page p - 1)) by lia.
    destruct (Z.ltb_spec (utils.Page p - 1) (utils.TotalPage p)); [|lia].
    cbn [negb]. rewrite wrapInt_small by lia. lia.
Qed.

Lemma page_navigation_witness :
  utils.GetPreviousPage
    {| utils.Page :=
         utils.GetNextPage
           {| utils.Page := 3; utils.PageSize := 10; utils.Total := 95;
              utils.TotalPage := 10 |};
       utils.PageSize := 10; utils.Total := 95; utils.TotalPage := 10 |} = 3.
Proof.
  destruct (page_navigation
              {| utils.Page := 3; utils.PageSize := 10; utils.Total := 95;
                 utils.TotalPage := 10 |}) as (_ & _ & Hback & _).
  - unfold utils.maxInt. simpl. lia.
  - unfold utils.maxInt. simpl. lia.
  - apply Hback. reflexivity.
Defined.

(** ** Truncation *)





(** ** The module registry *)

Lemma setupLoop_app {Container Err : Type}
    (ms1 ms2 : list (Module Container Err)) : forall container,
  setupLoop (ms1 ++ ms2) container =
    match setupLoop ms1 container with
    | (container1, None) => setupLoop ms2 container1
    | failed => failed
    end.
Proof.
  induction ms1 as [|m rest IH]; intros container; [done|].
  cbn [app setupLoop]. destruct (Register m container) as [c1 [e|]]; [done|].
  apply IH.
Qed.

(** X13. [Setup] stops at the first module that fails.  If the modules
    registered before [module] all succeed and [module] reports an error,
    [Setup] returns that error, the modules registered after it are not
    run, and the container is left as the failing module left it: what
    the earlier modules provided is not rolled back. *)
Theorem Setup_stops_at_first_error
    (Container Err : Type) (before after : list (Module Container Err))
    (module : Module Container Err)
    (container container1 container2 : Container) (err : Err) :
  Setup {| modules := before |} container = (container1, None) ->
  Register module container1 = (container2, Some err) ->
  Setup {| modules := before ++ module :: after |} container =
    (container2, Some err).
Proof.
  unfold Setup. cbn [modules]. intros Hbefore Hfail.
  rewrite setupLoop_app, Hbefore. cbn [setupLoop]. by rewrite Hfail.
Qed.

Lemma Setup_stops_at_first_error_witness :
  Setup
    {| modules :=
         [ {| Name := "user"; Register := fun c : list string => ("user" :: c, None) |} ]
         ++ {| Name := "product";
               Register := fun c : list string => (c, Some "duplicate"%string) |}
         :: [ {| Name := "order";
                 Register := fun c : list string => ("order" :: c, None) |} ] |}
    []
  = (["user"%string], Some "duplicate"%string).
Proof.
  apply (Setup_stops_at_first_error (list string) string
           [ {| Name := "user"; Register := fun c : list string => ("user" :: c, None) |} ]
           [ {| Name := "order";
                Register := fun c : list string => ("order" :: c, None) |} ]
           {| Name := "product";
              Register := fun c : list string => (c, Some "duplicate"%string) |}
           [] ["user"%string] ["user"%string] "duplicate"%string);
    reflexivity.
Defined.

Lemma getModuleLoop_app {Container Err : Type} (name : string)
    (ms1 ms2 : list (Module Container Err)) :
  getModuleLoop name (ms1 ++ ms2) =
    match getModuleLoop name ms1 with
    | Some m => Some m
    | None => getModuleLoop name ms2
    end.
Proof.
  induction ms1 as [|m rest IH]; [done|]. cbn [app getModuleLoop].
  by destruct (String.eqb (Name m) name).
Qed.

(** X14. Looking a module up after registering one.  A new registry has no
    module of any name.  After [Register], a name that was already found
    is still answered by the module registered first (a second module of
    the same name never replaces it); a name that was not found is
    answered by the new module if that is its name, and by none
    otherwise. *)
Theorem GetModule_after_Register
    (Container Err : Type) (module : Module Container Err)
    (r : Registry Container Err) (name : string) :
  GetModule name (@NewRegistry Container Err) = None /\
  GetModule name (Registry_Register module r) =
    match GetModule name r with
    | Some first => Some first
    | None => if String.eqb (Name module) name then Some module else None
    end.
Proof.
  split; [done|].
  unfold GetModule, GetModules, Registry_Register. cbn [modules].
  rewrite getModuleLoop_app. by destruct (getModuleLoop name (modules r)).
Qed.

(** ** One limiter behind several quotas *)




